(** * SelfCollector (prometheus/collector.go)

    A shallow embedding of the [SelfCollector] helper of the Prometheus Go
    client: a struct with the two fields [self] and [descs] and the three
    methods [Init], [Describe] and [Collect].

    The three method bodies are written once, as programs over the atomic
    actions that occur in the Go source (field loads and stores, the
    interface call [self.Desc()], the slice literal, the channel send).
    Two semantics are given to these programs: a sequential interpreter
    [run], and an interleaving step relation over pools of goroutines. *)

From stdpp Require Import base tactics option list gmap functions relations.

Set Default Proof Using "Type".

(** ** Go values *)

(** Addresses of backing arrays and identifiers of channels. *)
Abbreviation loc := positive (only parsing).
Abbreviation chan_id := nat (only parsing).

(** The interface [Metric] (declared elsewhere in the package): the code only
    uses its method [Desc() *Desc].  [Obj] are the dynamic values stored in a
    non-nil interface value, [Env] is the mutable state those values own,
    [DescPtr] are the values of type [*Desc] (never dereferenced here). *)
Class MetricImpl (Obj Env DescPtr : Type) :=
  Desc : Obj → Env → DescPtr.
Global Hint Mode MetricImpl ! - - : typeclass_instances.

Section collector.
Context {Obj Env DescPtr : Type} `{!MetricImpl Obj Env DescPtr}.

(** A value of interface type [Metric]: the nil interface or a dynamic
    value. *)
Inductive Metric : Type :=
| nil_metric
| metric (m : Obj).

(** A value of type [[]*Desc]: the nil slice, or a slice header (pointer to
    the backing array, length, capacity). *)
Inductive Slice : Type :=
| nil_slice
| slice (arr : loc) (len cap : nat).

(** A value of type [chan<- Metric]: the nil channel or a reference. *)
Inductive ChanRef : Type :=
| nil_chan
| chan_ref (id : chan_id).

(** [type SelfCollector struct { self Metric; descs []*Desc }] *)
Record SelfCollector : Type := mkSelfCollector {
  self : Metric;
  descs : Slice;
}.

(** The zero value of the struct: what a wrapper holds before [Init]. *)
Definition zero_SelfCollector : SelfCollector :=
  {| self := nil_metric; descs := nil_slice |}.

(** The run-time state of a channel, after the Go run time's [hchan]:
    capacity, buffered values (oldest first), the closed flag, and the
    number of goroutines parked in a receive. *)
Record ChanState : Type := mkChanState {
  ch_cap : nat;
  ch_buf : list Metric;
  ch_closed : bool;
  ch_recvq : nat;
}.

(** ** The world a method call runs in

    The receiver [c] of the three methods points to the one struct of the
    world.  The backing arrays are kept apart from the slice headers, so that
    a slice returned to a caller is the stored slice and no copy of it. *)

Record World : Type := mkWorld {
  wrapper : SelfCollector;             (* the struct the receiver [c] points to *)
  arrays : gmap positive (list DescPtr); (* backing arrays of slices *)
  env : Env;                           (* state of the metric implementations *)
  chans : chan_id → ChanState;         (* state of every channel *)
}.

Definition set_self (v : Metric) (w : World) : World :=
  {| wrapper := {| self := v; descs := descs (wrapper w) |};
     arrays := arrays w; env := env w; chans := chans w |}.

Definition set_descs (s : Slice) (w : World) : World :=
  {| wrapper := {| self := self (wrapper w); descs := s |};
     arrays := arrays w; env := env w; chans := chans w |}.

Definition set_arrays (h : gmap positive (list DescPtr)) (w : World) : World :=
  {| wrapper := wrapper w; arrays := h; env := env w; chans := chans w |}.

Definition set_env (e : Env) (w : World) : World :=
  {| wrapper := wrapper w; arrays := arrays w; env := e; chans := chans w |}.

Definition set_chan (id : chan_id) (st : ChanState) (w : World) : World :=
  {| wrapper := wrapper w; arrays := arrays w; env := env w;
     chans := <[id := st]> (chans w) |}.

(** The elements a slice denotes: [s[0], ..., s[len(s)-1]]. *)
Definition elems (h : gmap positive (list DescPtr)) (s : Slice) : list DescPtr :=
  match s with
  | nil_slice => []
  | slice a n _ => take n (default [] (h !! a))
  end.

(** [len(s)]. *)
Definition slice_len (s : Slice) : nat :=
  match s with
  | nil_slice => 0
  | slice _ n _ => n
  end.

(** ** Events and atomic actions *)

(** What a method call does to the outside: calls of [Desc()], allocations
    of backing arrays, values handed to a channel. *)
Inductive Event : Type :=
| EvDesc (m : Obj)
| EvAlloc (a : loc) (n : nat)
| EvSend (id : chan_id) (v : Metric).

(** The atomic actions of the three method bodies, indexed by the type of
    the value they produce. *)
Inductive Action : Type → Type :=
| LoadSelf : Action Metric                       (* read [c.self] *)
| StoreSelf (v : Metric) : Action unit           (* [c.self = v] *)
| LoadDescs : Action Slice                       (* read [c.descs] *)
| StoreDescs (s : Slice) : Action unit           (* [c.descs = s] *)
| CallDesc (v : Metric) : Action DescPtr         (* [v.Desc()] *)
| SliceLit (l : list DescPtr) : Action Slice     (* [[]*Desc{...}] *)
| ChanSend (ch : ChanRef) (v : Metric) : Action unit.  (* [ch <- v] *)

Inductive Outcome (X : Type) : Type :=
| Ok (x : X) (w : World) (evs : list Event)
| Panic    (* run-time panic *)
| Block.   (* the goroutine is parked *)
Global Arguments Ok {X} x w evs.
Global Arguments Panic {X}.
Global Arguments Block {X}.

(** Sending on a non-nil channel, after the run time's [chansend]: a closed
    channel panics; a parked receiver takes the value directly; otherwise
    the value is buffered if there is room; otherwise the sender parks. *)
Inductive SendOutcome : Type :=
| SendOk (st : ChanState)
| SendPanic
| SendBlock.

Definition chansend (st : ChanState) (v : Metric) : SendOutcome :=
  if ch_closed st then SendPanic
  else match ch_recvq st with
       | S n =>
           SendOk {| ch_cap := ch_cap st; ch_buf := ch_buf st;
                     ch_closed := false; ch_recvq := n |}
       | O =>
           if decide (length (ch_buf st) < ch_cap st)
           then SendOk {| ch_cap := ch_cap st; ch_buf := ch_buf st ++ [v];
                          ch_closed := false; ch_recvq := 0 |}
           else SendBlock
       end.

Definition exec {X} (a : Action X) (w : World) : Outcome X :=
  match a in Action X return Outcome X with
  | LoadSelf => Ok (self (wrapper w)) w []
  | StoreSelf v => Ok () (set_self v w) []
  | LoadDescs => Ok (descs (wrapper w)) w []
  | StoreDescs s => Ok () (set_descs s w) []
  | CallDesc nil_metric => Panic
  | CallDesc (metric m) => Ok (Desc m (env w)) w [EvDesc m]
  | SliceLit l =>
      let a := fresh (dom (arrays w)) in
      Ok (slice a (length l) (length l))
         (set_arrays (<[a := l]> (arrays w)) w)
         [EvAlloc a (length l)]
  | ChanSend nil_chan _ => Block
  | ChanSend (chan_ref id) v =>
      match chansend (chans w id) v with
      | SendOk st => Ok () (set_chan id st w) [EvSend id v]
      | SendPanic => Panic
      | SendBlock => Block
      end
  end.

(** ** Programs *)

Inductive Prog (A : Type) : Type :=
| Ret (a : A)
| Act {X : Type} (a : Action X) (k : X → Prog A).
Global Arguments Ret {A} a.
Global Arguments Act {A X} a k.

Fixpoint prog_bind {A B} (f : A → Prog B) (p : Prog A) : Prog B :=
  match p with
  | Ret a => f a
  | Act a k => Act a (λ x, prog_bind f (k x))
  end.

Global Instance prog_ret : MRet Prog := λ A a, Ret a.
Global Instance prog_mbind : MBind Prog := λ A B f p, prog_bind f p.

Definition act {X} (a : Action X) : Prog X := Act a Ret.

(** ** The methods of [SelfCollector] *)

(** [func (c *SelfCollector) Init(self Metric) {
       c.self = self
       c.descs = []*Desc{self.Desc()}
     }] *)
Definition Init (self : Metric) : Prog unit :=
  act (StoreSelf self);;
  d ← act (CallDesc self);
  s ← act (SliceLit [d]);
  act (StoreDescs s).

(** [func (c *SelfCollector) Describe() []*Desc { return c.descs }] *)
Definition Describe : Prog Slice :=
  act LoadDescs.

(** [func (c *SelfCollector) Collect(ch chan<- Metric) { ch <- c.self }] *)
Definition Collect (ch : ChanRef) : Prog unit :=
  v ← act LoadSelf;
  act (ChanSend ch v).

(** ** Sequential semantics *)

Inductive Status (A : Type) : Type :=
| Returned (a : A)
| Panicked
| Blocked.
Global Arguments Returned {A} a.
Global Arguments Panicked {A}.
Global Arguments Blocked {A}.

Record Result (A : Type) : Type := mkResult {
  status : Status A;
  final : World;
  trace : list Event;
}.
Global Arguments mkResult {A} _ _ _.
Global Arguments status {A} _.
Global Arguments final {A} _.
Global Arguments trace {A} _.

(** Run a program alone, with no other goroutine: it returns, panics, or
    stays parked at a channel operation. *)
Fixpoint run {A} (p : Prog A) (w : World) : Result A :=
  match p with
  | Ret a => mkResult (Returned a) w []
  | Act a k =>
      match exec a w with
      | Ok x w' evs =>
          let r := run (k x) w' in
          mkResult (status r) (final r) (evs ++ trace r)
      | Panic => mkResult Panicked w []
      | Block => mkResult Blocked w []
      end
  end.

(** The send [ch <- v] goes through at once: the channel is not nil, not
    closed, and a receiver is parked or the buffer has room. *)
Definition chan_accepts (st : ChanState) : bool :=
  negb (ch_closed st) &&
  (bool_decide (0 < ch_recvq st) ||
   bool_decide (length (ch_buf st) < ch_cap st)).

Definition accepts (ch : ChanRef) (w : World) : bool :=
  match ch with
  | nil_chan => false
  | chan_ref id => chan_accepts (chans w id)
  end.

(** ** What happens around the wrapper *)

(** Anything the rest of the program does that is not a method call on the
    wrapper: producers mutate the state of the metrics, the channels are
    drained, closed, or get receivers. *)
Inductive env_step : World → World → Prop :=
| env_mutate e w : env_step w (set_env e w)
| env_chan id st w : env_step w (set_chan id st w).

(** One step in the life of a wrapper on which [Init] is not called: a call
    of [Describe], a call of [Collect] (whatever its outcome), or a step of
    the environment. *)
Inductive no_init_step : World → World → Prop :=
| step_Describe w : no_init_step w (final (run Describe w))
| step_Collect ch w : no_init_step w (final (run (Collect ch) w))
| step_around w w' : env_step w w' → no_init_step w w'.

(** ** Interleaving semantics *)

(** One atomic action of a program. *)
Definition prog_step {A} (p : Prog A) (w : World)
  : option (Prog A * World * list Event) :=
  match p with
  | Ret _ => None
  | Act a k =>
      match exec a w with
      | Ok x w' evs => Some (k x, w', evs)
      | Panic | Block => None
      end
  end.

(** A goroutine running a method call: the rest of its program and the
    events it has produced so far. *)
Inductive Thread : Type :=
| Th {A : Type} (p : Prog A) (log : list Event).

Definition thread_step (t : Thread) (w : World) : option (Thread * World) :=
  match t with
  | Th p log =>
      match prog_step p w with
      | Some (p', w', evs) => Some (Th p' (log ++ evs), w')
      | None => None
      end
  end.

Definition finished (t : Thread) : bool :=
  match t with
  | Th (Ret _) _ => true
  | Th (Act _ _) _ => false
  end.




(** Goroutines interleave their atomic actions with each other and with
    the environment. *)
Inductive pool_step : list Thread * World → list Thread * World → Prop :=
| pool_step_thread pool w i t t' w' :
    pool !! i = Some t →
    thread_step t w = Some (t', w') →
    pool_step (pool, w) (<[i := t']> pool, w')
| pool_step_env pool w w' :
    env_step w w' →
    pool_step (pool, w) (pool, w').

(** The calls a collector receives from concurrent scrapes. *)
Inductive Call : Type :=
| CallDescribe
| CallCollect (ch : ChanRef).

Definition spawn (c : Call) : Thread :=
  match c with
  | CallDescribe => Th Describe []
  | CallCollect ch => Th (Collect ch) []
  end.

(** The stages of a goroutine spawned for a call, when the struct holds
    [c0]: a [Describe] has yet to load [c.descs] or holds it as its result; a
    [Collect] has yet to load [c.self], or is at the send of it, or has sent
    it and returned. *)
Inductive call_stage (c0 : SelfCollector) : Call → Thread → Prop :=
| stage_Describe_start :
    call_stage c0 CallDescribe (Th Describe [])
| stage_Describe_done :
    call_stage c0 CallDescribe (Th (Ret (descs c0)) [])
| stage_Collect_start ch :
    call_stage c0 (CallCollect ch) (Th (Collect ch) [])
| stage_Collect_send ch :
    call_stage c0 (CallCollect ch) (Th (act (ChanSend ch (self c0))) [])
| stage_Collect_done id :
    call_stage c0 (CallCollect (chan_ref id))
      (Th (Ret ()) [EvSend id (self c0)]).

(** What the callers of [Describe] and [Collect] can tell of a world: the
    metric the wrapper holds, the descriptors its slice denotes, and the
    state around the wrapper.  The address of the backing array and the
    arrays no slice of the wrapper points to are not part of it. *)
Definition same_behaviour (w1 w2 : World) : Prop :=
  self (wrapper w1) = self (wrapper w2) ∧
  elems (arrays w1) (descs (wrapper w1)) = elems (arrays w2) (descs (wrapper w2)) ∧
  env w1 = env w2 ∧
  ∀ id, chans w1 id = chans w2 id.

(** The invariant of a pool spawned for [calls] in a world whose struct is
    [c0] and whose arrays are [h0]. *)
Definition pool_inv (c0 : SelfCollector) (h0 : gmap positive (list DescPtr))
    (calls : list Call) (cfg : list Thread * World) : Prop :=
  Forall2 (call_stage c0) calls cfg.1 ∧ wrapper cfg.2 = c0 ∧ arrays cfg.2 = h0.

(** One step of a goroutine, as a relation on goroutine and world. *)
Definition thread_rel : relation (Thread * World) :=
  λ x y, thread_step x.1 x.2 = Some y.

(** [k] calls in a row, as a caller makes them:
    [for i := 0; i < k; i++ { p }]. *)
Fixpoint repeat_call (k : nat) (p : Prog unit) : Prog unit :=
  match k with
  | O => Ret ()
  | S k' => p;; repeat_call k' p
  end.

(** The second statement of [Init], [c.descs = []*Desc{self.Desc()}]: what
    is left of the call once [c.self] is stored. *)
Definition Init_descs (self : Metric) : Prog unit :=
  d ← act (CallDesc self);
  s ← act (SliceLit [d]);
  act (StoreDescs s).

End collector.

(** * A concrete instance

    Metrics are numbered, and the environment maps each metric to the
    descriptor pointer it reports at present. *)

Global Instance numbered_metric : MetricImpl nat (nat → nat) nat :=
  λ m e, e m.

Definition ex_env : nat → nat := λ m, 100 + m.

(** An open channel with room for two values and no receiver parked. *)
Definition ex_chan : ChanState (Obj := nat) :=
  {| ch_cap := 2; ch_buf := []; ch_closed := false; ch_recvq := 0 |}.

(** A world whose wrapper has not seen [Init]. *)
Definition ex_world : World (Obj := nat) (Env := nat → nat) (DescPtr := nat) :=
  {| wrapper := zero_SelfCollector; arrays := ∅; env := ex_env;
     chans := λ _, ex_chan |}.

(** The world after [Init] with metric 7. *)
Definition ex_ready : World (Obj := nat) (Env := nat → nat) (DescPtr := nat) :=
  final (run (Init (metric 7)) ex_world).


(** Later: a [Describe] and a [Collect] on channel 0 have run. *)
Definition ex_sent : World (Obj := nat) (Env := nat → nat) (DescPtr := nat) :=
  final (run (Collect (chan_ref 0)) (final (run Describe ex_ready))).

(** Later still: the producers have moved every metric to another
    descriptor. *)
Definition ex_later : World (Obj := nat) (Env := nat → nat) (DescPtr := nat) :=
  set_env (λ m, 500 + m) ex_sent.


Definition ex_done_world : World (Obj := nat) (Env := nat → nat) (DescPtr := nat) :=
  final (run (Collect (chan_ref 0)) (final (run (Collect (chan_ref 0)) ex_ready))).

(** Three [Collect] calls on channel 0, which has room for two values: two
    have returned and the third is at its send. *)
Definition ex_collects : list Call :=
  [CallCollect (chan_ref 0); CallCollect (chan_ref 0); CallCollect (chan_ref 0)].

Definition ex_full_pool : list (Thread (Obj := nat) (DescPtr := nat)) :=
  [Th (Ret ()) [EvSend 0 (metric 7)];
   Th (Ret ()) [EvSend 0 (metric 7)];
   Th (act (ChanSend (chan_ref 0) (metric 7))) []].

(** * Properties *)

Section collector_facts.
Context {Obj Env DescPtr : Type} `{!MetricImpl Obj Env DescPtr}.

(** The values and worlds of this instance of the interface. *)
Local Abbreviation World := (@World Obj Env DescPtr).
Local Abbreviation Metric := (@Metric Obj).
Local Abbreviation SelfCollector := (@SelfCollector Obj).
Local Abbreviation ChanState := (@ChanState Obj).
Local Abbreviation Thread := (@Thread Obj DescPtr).
Local Abbreviation spawn := (@spawn Obj DescPtr).

(** ** The sequential runs of the three methods *)

Lemma run_Init_metric (m : Obj) (w : World) :
  let a := fresh (dom (arrays w)) in
  run (Init (metric m)) w =
    mkResult (Returned ())
      {| wrapper := {| self := metric m; descs := slice a 1 1 |};
         arrays := <[a := [Desc m (env w)]]> (arrays w);
         env := env w; chans := chans w |}
      [EvDesc m; EvAlloc a 1].
Proof. reflexivity. Qed.

(** [Init(nil)] stores the nil interface and then panics in [self.Desc()]:
    [c.descs] keeps its old value. *)
Lemma run_Init_nil (w : World) :
  run (Init nil_metric) w = mkResult Panicked (set_self nil_metric w) [].
Proof. reflexivity. Qed.

Lemma run_Describe (w : World) :
  run Describe w = mkResult (Returned (descs (wrapper w))) w [].
Proof. destruct w; reflexivity. Qed.

Lemma run_Collect (ch : ChanRef) (w : World) :
  run (Collect ch) w = run (act (ChanSend ch (self (wrapper w)))) w.
Proof.
  destruct ch as [|id]; simpl; [done |].
  by destruct (chansend (chans w id) (self (wrapper w))).
Qed.

Lemma chan_accepts_send (st : ChanState) (v : Metric) :
  chan_accepts st = true ↔ ∃ st', chansend st v = SendOk st'.
Proof.
  unfold chan_accepts, chansend.
  destruct (ch_closed st); simpl.
  { split; [done | by intros [? ?]]. }
  destruct (ch_recvq st) as [|n]; simpl.
  - case_decide as Hroom.
    + rewrite bool_decide_eq_true_2 by done. split; [eauto | done].
    + rewrite bool_decide_eq_false_2 by done. split; [done | by intros [? ?]].
  - split; [eauto | done].
Qed.

Lemma run_send_accepted (ch : ChanRef) (v : Metric) (w : World) :
  accepts ch w = true →
  ∃ id st, ch = chan_ref id ∧ chansend (chans w id) v = SendOk st ∧
    run (act (ChanSend ch v)) w =
      mkResult (Returned ()) (set_chan id st w) [EvSend id v].
Proof.
  destruct ch as [|id]; simpl; [done |].
  intros [st Hst]%(chan_accepts_send _ v).
  exists id, st. by rewrite Hst.
Qed.

Lemma run_send_trace (ch : ChanRef) (v : Metric) (w : World) (e : Event) :
  e ∈ trace (run (act (ChanSend ch v)) w) →
  ∃ id, ch = chan_ref id ∧ e = EvSend id v.
Proof.
  destruct ch as [|id]; simpl; [by intros ?%elem_of_nil |].
  destruct (chansend (chans w id) v); simpl.
  - intros ->%list_elem_of_singleton. by exists id.
  - by intros ?%elem_of_nil.
  - by intros ?%elem_of_nil.
Qed.

Lemma run_send_frame (ch : ChanRef) (v : Metric) (w : World) :
  let w' := final (run (act (ChanSend ch v)) w) in
  wrapper w' = wrapper w ∧ arrays w' = arrays w ∧ env w' = env w.
Proof.
  destruct ch as [|id]; simpl; [done |].
  by destruct (chansend (chans w id) v).
Qed.

(** ** Frame: what no step other than [Init] changes *)

Lemma env_step_frame (w w' : World) :
  env_step w w' → wrapper w' = wrapper w ∧ arrays w' = arrays w.
Proof. by destruct 1. Qed.

Lemma no_init_step_frame (w w' : World) :
  no_init_step w w' → wrapper w' = wrapper w ∧ arrays w' = arrays w.
Proof.
  destruct 1 as [w | ch w | w w' Henv].
  - by rewrite run_Describe.
  - rewrite run_Collect. by destruct (run_send_frame ch (self (wrapper w)) w) as (? & ? & ?).
  - by apply env_step_frame.
Qed.

Lemma no_init_steps_frame (w w' : World) :
  rtc no_init_step w w' → wrapper w' = wrapper w ∧ arrays w' = arrays w.
Proof.
  induction 1 as [w | w w1 w' Hstep _ [IHc IHa]]; [done |].
  destruct (no_init_step_frame _ _ Hstep) as [Hc Ha].
  split; congruence.
Qed.

Lemma elems_fresh_singleton (h : gmap positive (list DescPtr)) (a : positive) (d : DescPtr) :
  elems (<[a := [d]]> h) (slice a 1 1) = [d].
Proof. unfold elems. by rewrite lookup_insert_eq. Qed.

(** ** Callers cannot tell apart worlds with the same behaviour *)

Lemma same_behaviour_Describe (w1 w2 : World) :
  same_behaviour w1 w2 →
  ∃ s1 s2,
    run Describe w1 = mkResult (Returned s1) w1 [] ∧
    run Describe w2 = mkResult (Returned s2) w2 [] ∧
    elems (arrays w1) s1 = elems (arrays w2) s2.
Proof.
  intros (_ & Hel & _ & _).
  exists (descs (wrapper w1)), (descs (wrapper w2)).
  by rewrite !run_Describe.
Qed.

Lemma same_behaviour_Collect (ch : ChanRef) (w1 w2 : World) :
  same_behaviour w1 w2 →
  let r1 := run (Collect ch) w1 in
  let r2 := run (Collect ch) w2 in
  status r1 = status r2 ∧ trace r1 = trace r2 ∧
  same_behaviour (final r1) (final r2).
Proof.
  intros (Hself & Hel & Henv & Hch) r1 r2. subst r1 r2.
  rewrite !run_Collect, <-Hself.
  unfold same_behaviour.
  destruct ch as [|id]; simpl; [by split_and! |].
  rewrite <-(Hch id).
  destruct (chansend (chans w1 id) (self (wrapper w1))) as [st| |]; simpl;
    split_and!; try done.
  intros id'. unfold insert, fn_insert. by case_decide.
Qed.

(** ** The wrapper after [Init] *)

(** C1. For every metric [M]: once [Init(M)] has run, [Describe()] returns
    a slice of length one whose only element is the descriptor [M.Desc()]
    returned to [Init]; the call changes nothing and calls nothing. *)
Theorem Describe_after_Init (m : Obj) (w : World) :
  let r := run (Init (metric m)) w in
  status r = Returned () ∧
  ∃ s, run Describe (final r) = mkResult (Returned s) (final r) [] ∧
       slice_len s = 1 ∧
       elems (arrays (final r)) s = [Desc m (env w)].
Proof.
  intros r. subst r. rewrite run_Init_metric. cbn [status final].
  split; [done |].
  eexists. rewrite run_Describe. cbn [wrapper descs arrays].
  split_and!; [done | done |].
  apply elems_fresh_singleton.
Qed.

(** C2. For every metric [M]: once [Init(M)] has run, [Collect(ch)] hands
    nothing to a channel but [M] itself, on [ch]; and when [ch] takes the
    value, the call returns after exactly that one send, having changed
    nothing but the state of the channel. *)
Theorem Collect_after_Init (m : Obj) (ch : ChanRef) (w : World) :
  let w1 := final (run (Init (metric m)) w) in
  let r := run (Collect ch) w1 in
  (∀ e, e ∈ trace r → ∃ id, ch = chan_ref id ∧ e = EvSend id (metric m)) ∧
  (accepts ch w1 = true →
   ∃ id st, ch = chan_ref id ∧
     chansend (chans w1 id) (metric m) = SendOk st ∧
     r = mkResult (Returned ()) (set_chan id st w1) [EvSend id (metric m)]).
Proof.
  intros w1 r. subst r. rewrite run_Collect.
  assert (self (wrapper w1) = metric m) as -> by done.
  split.
  - intros e. apply run_send_trace.
  - apply run_send_accepted.
Qed.

(** C3. [Describe] is idempotent: a second call, made after the first and
    after any number of steps none of which is [Init], returns the same
    slice, denoting the same descriptors. *)
Theorem Describe_idempotent (w w' : World) :
  rtc no_init_step (final (run Describe w)) w' →
  ∃ s, status (run Describe w) = Returned s ∧
       status (run Describe w') = Returned s ∧
       elems (arrays w') s = elems (arrays w) s.
Proof.
  rewrite !run_Describe. cbn [status final].
  intros [Hc Ha]%no_init_steps_frame.
  exists (descs (wrapper w)). by rewrite Hc, Ha.
Qed.

(** C5. [Init(M)] calls [M.Desc()] once, allocates the one-element backing
    array and stores the slice.  Every later [Describe()] returns that very
    slice, with no call of [Desc()], no allocation and no change of state;
    what it denotes is the descriptor [Init] was given, whatever
    [M.Desc()] would answer by then. *)
Theorem Init_caches_descs (m : Obj) (w w' : World) :
  let r := run (Init (metric m)) w in
  let a := fresh (dom (arrays w)) in
  rtc no_init_step (final r) w' →
  status r = Returned () ∧
  trace r = [EvDesc m; EvAlloc a 1] ∧
  descs (wrapper (final r)) = slice a 1 1 ∧
  arrays (final r) !! a = Some [Desc m (env w)] ∧
  run Describe w' = mkResult (Returned (slice a 1 1)) w' [] ∧
  elems (arrays w') (slice a 1 1) = [Desc m (env w)].
Proof.
  intros r a. subst r. rewrite run_Init_metric. fold a.
  cbn [status final trace wrapper descs arrays].
  intros [Hc Ha]%no_init_steps_frame. cbn [wrapper arrays] in Hc, Ha.
  split_and!; try done.
  - apply lookup_insert_eq.
  - by rewrite run_Describe, Hc.
  - rewrite Ha. apply elems_fresh_singleton.
Qed.

(** C6. In every state of the wrapper, [Describe()] and [Collect(ch)],
    whatever their outcome, leave the struct (the stored metric and the
    stored slice) and every backing array as they were: [Describe] changes
    nothing at all, [Collect] at most the channel. *)
Theorem Describe_Collect_frame (ch : ChanRef) (w : World) :
  final (run Describe w) = w ∧
  wrapper (final (run (Collect ch) w)) = wrapper w ∧
  arrays (final (run (Collect ch) w)) = arrays w ∧
  env (final (run (Collect ch) w)) = env w.
Proof.
  split; [by rewrite run_Describe |].
  rewrite run_Collect. apply run_send_frame.
Qed.

(** C4, amended. For every metric [M]: after [Init(M)] and any number of
    steps none of which is [Init], every value [Collect] hands to a channel
    is [M] itself, and [Describe()] denotes exactly the descriptor [M]
    reported to [Init].  So the descriptor [M] reports now is among those
    [Describe()] returns exactly when it is still the one reported to
    [Init]. *)
Theorem Collect_within_Describe (m : Obj) (ch : ChanRef) (w w' : World) :
  rtc no_init_step (final (run (Init (metric m)) w)) w' →
  ∀ id v, EvSend id v ∈ trace (run (Collect ch) w') →
    v = metric m ∧
    ∃ s, status (run Describe w') = Returned s ∧
      elems (arrays w') s = [Desc m (env w)] ∧
      (Desc m (env w') ∈ elems (arrays w') s ↔
       Desc m (env w') = Desc m (env w)).
Proof.
  rewrite run_Init_metric. cbn [final].
  intros [Hc Ha]%no_init_steps_frame id v. cbn [wrapper arrays] in Hc, Ha.
  rewrite run_Collect, run_Describe, Hc, Ha. cbn [self descs status].
  intros (id' & _ & [= _ ->])%run_send_trace.
  split; [done |]. eexists. split; [done |].
  rewrite elems_fresh_singleton. split; [done |].
  apply list_elem_of_singleton.
Qed.

(** C7. [Collect] does not loop: its first action, the load of [c.self], is
    always enabled and leaves it at the send; in whatever world the channel
    then takes the value, the send is its last action, the only event of the
    call.  Run alone on a channel that takes the value it returns. *)
Theorem Collect_returns (ch : ChanRef) (w : World) :
  let v := self (wrapper w) in
  thread_step (Th (Collect ch) []) w = Some (Th (act (ChanSend ch v)) [], w) ∧
  (∀ w1, accepts ch w1 = true →
     ∃ id st, ch = chan_ref id ∧
       thread_step (Th (act (ChanSend ch v)) []) w1 =
         Some (Th (Ret ()) [EvSend id v], set_chan id st w1)) ∧
  (accepts ch w = true →
     ∃ id, ch = chan_ref id ∧
       status (run (Collect ch) w) = Returned () ∧
       trace (run (Collect ch) w) = [EvSend id v]).
Proof.
  intros v. split_and!.
  - reflexivity.
  - intros w1 (id & st & -> & Hst & _)%(run_send_accepted _ v).
    exists id, st. split; [done |]. simpl. by rewrite Hst.
  - rewrite run_Collect. fold v.
    intros (id & st & -> & _ & ->)%(run_send_accepted _ v).
    by exists id.
Qed.

(** ** The wrapper without [Init], and [Init] called again *)

(** C9. On the zero value of the struct neither method checks anything:
    [Describe()] returns the nil slice, which denotes no descriptor, and
    [Collect(ch)] is the bare send [ch <- nil], which hands the nil
    interface to a channel that takes it and panics only on a closed
    channel. *)
Theorem zero_value_calls (ch : ChanRef) (w : World) :
  wrapper w = zero_SelfCollector →
  run Describe w = mkResult (Returned nil_slice) w [] ∧
  elems (arrays w) nil_slice = [] ∧
  run (Collect ch) w = run (act (ChanSend ch nil_metric)) w ∧
  (accepts ch w = true →
     ∃ id st, ch = chan_ref id ∧
       run (Collect ch) w =
         mkResult (Returned ()) (set_chan id st w) [EvSend id nil_metric]) ∧
  (status (run (Collect ch) w) = Panicked →
     ∃ id, ch = chan_ref id ∧ ch_closed (chans w id) = true).
Proof.
  intros Hzero. rewrite run_Describe, run_Collect, Hzero.
  unfold zero_SelfCollector. cbn [self descs].
  split_and!; try done.
  - intros (id & st & -> & _ & ->)%(run_send_accepted _ nil_metric). eauto.
  - destruct ch as [|id]; simpl; [done |].
    unfold chansend. destruct (ch_closed (chans w id)) eqn:Hclosed; [eauto |].
    destruct (ch_recvq (chans w id)); [case_decide |]; done.
Qed.

(** C10. [Init(M')] overwrites both fields: from every prior state of the
    struct and of the arrays, it leaves a wrapper that holds [M'] and one
    descriptor, that of [M'], and that callers of [Describe] and [Collect]
    cannot tell from a wrapper whose first [Init] this was. *)
Theorem Init_overwrites (m' : Obj) (h0 : gmap positive (list DescPtr)) (w : World) :
  let r := run (Init (metric m')) w in
  let r0 := run (Init (metric m'))
              (mkWorld zero_SelfCollector h0 (env w) (chans w)) in
  status r = Returned () ∧ status r0 = Returned () ∧
  self (wrapper (final r)) = metric m' ∧
  elems (arrays (final r)) (descs (wrapper (final r))) = [Desc m' (env w)] ∧
  same_behaviour (final r) (final r0) ∧
  (∃ s s0,
     status (run Describe (final r)) = Returned s ∧
     status (run Describe (final r0)) = Returned s0 ∧
     elems (arrays (final r)) s = elems (arrays (final r0)) s0) ∧
  (∀ ch,
     status (run (Collect ch) (final r)) = status (run (Collect ch) (final r0)) ∧
     trace (run (Collect ch) (final r)) = trace (run (Collect ch) (final r0))).
Proof.
  intros r r0.
  assert (same_behaviour (final r) (final r0)) as Hsame.
  { subst r r0. rewrite !run_Init_metric. unfold same_behaviour.
    cbn [final wrapper self descs arrays env chans].
    by rewrite !elems_fresh_singleton. }
  split_and!; try done.
  - subst r. rewrite run_Init_metric. cbn [final wrapper descs arrays].
    apply elems_fresh_singleton.
  - destruct (same_behaviour_Describe _ _ Hsame) as (s & s0 & -> & -> & Hel).
    by exists s, s0.
  - intros ch. by destruct (same_behaviour_Collect ch _ _ Hsame) as (? & ? & _).
Qed.

(** ** Concurrent calls *)

(** The two semantics agree: a program that returns when run alone gets
    there by steps of its goroutine, producing the same events. *)
Lemma run_thread_steps {A} (p : Prog A) (w : World) (log : list Event) (a : A) :
  status (run p w) = Returned a →
  rtc thread_rel (Th p log, w)
    (Th (Ret a) (log ++ trace (run p w)), final (run p w)).
Proof.
  revert w log. induction p as [a' | X x k IH]; intros w log; simpl.
  - intros [= ->]. rewrite app_nil_r. constructor.
  - destruct (exec x w) as [y w1 evs | |] eqn:Hexec; simpl; [| done | done].
    intros Hret. eapply rtc_l.
    + unfold thread_rel. simpl. by rewrite Hexec.
    + rewrite app_assoc. by apply IH.
Qed.

Lemma call_stage_spawn (c0 : SelfCollector) (c : Call) :
  call_stage c0 c (spawn c).
Proof. destruct c; constructor. Qed.

(** A step of a goroutine in one of the stages leads to the next stage and
    changes neither the struct nor the arrays. *)
Lemma call_stage_step (c : Call) (t t' : Thread) (w w' : World) :
  call_stage (wrapper w) c t →
  thread_step t w = Some (t', w') →
  call_stage (wrapper w) c t' ∧ wrapper w' = wrapper w ∧ arrays w' = arrays w.
Proof.
  destruct 1 as [| | ch | ch | id]; simpl.
  - intros [= <- <-]. split_and!; [constructor | done | done].
  - done.
  - intros [= <- <-]. split_and!; [constructor | done | done].
  - destruct ch as [|id]; simpl; [done |].
    destruct (chansend (chans w id) (self (wrapper w))) as [st| |]; simpl; [| done | done].
    intros [= <- <-]. split_and!; [constructor | done | done].
  - done.
Qed.


Lemma pool_inv_step (c0 : SelfCollector) h0 calls (cfg cfg' : list Thread * World) :
  pool_inv c0 h0 calls cfg → pool_step cfg cfg' → pool_inv c0 h0 calls cfg'.
Proof.
  unfold pool_inv. intros (Hall & Hc & Ha) Hstep.
  destruct Hstep as [pool w i t t' w' Hi Hstep | pool w w' Henv];
    simpl in *.
  - destruct (Forall2_lookup_r _ _ _ _ _ Hall Hi) as (c & Hci & Hstage).
    rewrite <-Hc in Hstage.
    destruct (call_stage_step _ _ _ _ _ Hstage Hstep) as (Hstage' & Hc' & Ha').
    split_and!; [| congruence | congruence].
    rewrite <-(list_insert_id calls i c) by done.
    apply Forall2_insert; [done |]. by rewrite <-Hc.
  - destruct (env_step_frame _ _ Henv) as [Hc' Ha'].
    split_and!; [done | congruence | congruence].
Qed.

Lemma pool_inv_steps (c0 : SelfCollector) h0 calls (cfg cfg' : list Thread * World) :
  pool_inv c0 h0 calls cfg → rtc pool_step cfg cfg' → pool_inv c0 h0 calls cfg'.
Proof.
  intros Hinv Hsteps. induction Hsteps as [| cfg cfg1 cfg' Hstep _ IH]; [done |].
  apply IH. by eapply pool_inv_step.
Qed.


(** ** More on the three methods *)

(** Running a sequence: the second part runs in the world the first part
    leaves, if the first part returns. *)
Lemma run_bind {A B} (p : Prog A) (f : A → Prog B) (w : World) :
  run (p ≫= f) w =
    match status (run p w) with
    | Returned a =>
        let r := run (f a) (final (run p w)) in
        mkResult (status r) (final r) (trace (run p w) ++ trace r)
    | Panicked => mkResult Panicked (final (run p w)) (trace (run p w))
    | Blocked => mkResult Blocked (final (run p w)) (trace (run p w))
    end.
Proof.
  revert w. induction p as [a | X x k IH]; intros w.
  - change (run (Ret a ≫= f) w) with (run (f a) w). simpl.
    by destruct (run (f a) w).
  - change (run (Act x k ≫= f) w)
      with (match exec x w with
            | Ok y w' evs =>
                let r := run (k y ≫= f) w' in
                mkResult (status r) (final r) (evs ++ trace r)
            | Panic => mkResult Panicked w []
            | Block => mkResult Blocked w []
            end).
    simpl. destruct (exec x w) as [y w' evs | |]; [| done | done].
    simpl. rewrite IH.
    destruct (status (run (k y) w')); simpl; by rewrite ?app_assoc.
Qed.

(** X1. [Init(nil)] panics in [self.Desc()] after it has stored the nil
    interface: the wrapper is left half updated.  [c.descs] and the arrays
    are as before, so [Describe()] still returns the old slice, while
    [Collect(ch)] is now the send of the nil interface. *)
Theorem Init_nil_half_update (ch : ChanRef) (w : World) :
  let r := run (Init nil_metric) w in
  status r = Panicked ∧ trace r = [] ∧
  self (wrapper (final r)) = nil_metric ∧
  descs (wrapper (final r)) = descs (wrapper w) ∧
  arrays (final r) = arrays w ∧
  run Describe (final r) = mkResult (Returned (descs (wrapper w))) (final r) [] ∧
  run (Collect ch) (final r) = run (act (ChanSend ch nil_metric)) (final r).
Proof.
  intros r. subst r. rewrite run_Init_nil. cbn [status trace final].
  split_and!; try done.
  by rewrite run_Collect.
Qed.

(** X3. [Collect(ch)] is all or nothing: it returns exactly when the channel
    takes the value, and then it has sent the stored metric once; otherwise
    it has sent nothing and the world is as it was. *)
Theorem Collect_all_or_nothing (ch : ChanRef) (w : World) :
  let r := run (Collect ch) w in
  (status r = Returned () ↔ accepts ch w = true) ∧
  (accepts ch w = true →
     ∃ id, ch = chan_ref id ∧ trace r = [EvSend id (self (wrapper w))]) ∧
  (accepts ch w = false → final r = w ∧ trace r = []).
Proof.
  intros r. subst r. rewrite run_Collect.
  destruct (accepts ch w) eqn:Hacc.
  - destruct (run_send_accepted ch (self (wrapper w)) w Hacc)
      as (id & st & -> & _ & ->).
    split_and!; [done | by exists id | done].
  - split_and!; [| done |].
    + split; [| done]. intros Hret. rewrite <-Hacc.
      destruct ch as [|id]; simpl in *; [done |].
      apply (chan_accepts_send _ (self (wrapper w))).
      destruct (chansend (chans w id) (self (wrapper w))); [eauto | done | done].
    + intros _. destruct ch as [|id]; simpl in *; [done |].
      destruct (chansend (chans w id) (self (wrapper w))) as [st| |] eqn:Hsend;
        [| done | done].
      assert (chan_accepts (chans w id) = true) as Hyes
        by (apply (chan_accepts_send _ (self (wrapper w))); eauto).
      congruence.
Qed.

(** X4. The two ways [Collect(ch)] fails to return: it panics exactly on a
    closed channel, and it parks exactly on the nil channel or on an open
    channel with no parked receiver and no room in the buffer. *)
Theorem Collect_panics_or_parks (ch : ChanRef) (w : World) :
  let r := run (Collect ch) w in
  (status r = Panicked ↔ ∃ id, ch = chan_ref id ∧ ch_closed (chans w id) = true) ∧
  (status r = Blocked ↔
     ch = nil_chan ∨
     ∃ id, ch = chan_ref id ∧ ch_closed (chans w id) = false ∧
       ch_recvq (chans w id) = 0 ∧
       ch_cap (chans w id) ≤ length (ch_buf (chans w id))).
Proof.
  intros r. subst r. rewrite run_Collect.
  destruct ch as [|id]; simpl.
  { split; [split; [done | by intros (? & ? & _)] | split; [by left | done]]. }
  unfold chansend.
  destruct (ch_closed (chans w id)) eqn:Hclosed; simpl.
  { split; [split; [eauto | done] |].
    split; [done |]. intros [? | (id' & [= <-] & ? & _)]; congruence. }
  destruct (ch_recvq (chans w id)) as [|n] eqn:Hrecv; simpl.
  - case_decide as Hroom; simpl.
    + split; [split; [done | intros (id' & [= <-] & ?); congruence] |].
      split; [done |]. intros [? | (id' & [= <-] & _ & _ & ?)]; [done | lia].
    + split; [split; [done | intros (id' & [= <-] & ?); congruence] |].
      split; [| done]. intros _. right. exists id. split_and!; [done .. | lia].
  - split; [split; [done | intros (id' & [= <-] & ?); congruence] |].
    split; [done |]. intros [? | (id' & [= <-] & _ & ? & _)]; [done | congruence].
Qed.

(** [Init] allocates: an array that exists keeps its contents. *)
Lemma Init_keeps_arrays (v : Metric) (a : positive) (w : World) :
  is_Some (arrays w !! a) →
  arrays (final (run (Init v) w)) !! a = arrays w !! a.
Proof.
  intros Ha. destruct v as [|m]; [done |].
  rewrite run_Init_metric. cbn [final arrays].
  apply lookup_insert_ne. intros Heq.
  apply (is_fresh (dom (arrays w))). rewrite Heq. by apply elem_of_dom.
Qed.

(** X2. A second [Init] allocates a new backing array and leaves the old one
    alone: the slice [Describe()] returned before it still denotes the
    descriptor of the first metric, while the stored slice, a different one,
    denotes that of the second. *)
Theorem Init_again_keeps_old_slice (m m' : Obj) (w w1 : World) :
  rtc no_init_step (final (run (Init (metric m)) w)) w1 →
  let s := descs (wrapper w1) in
  let w2 := final (run (Init (metric m')) w1) in
  status (run Describe w1) = Returned s ∧
  elems (arrays w2) s = [Desc m (env w)] ∧
  elems (arrays w2) (descs (wrapper w2)) = [Desc m' (env w1)] ∧
  descs (wrapper w2) ≠ s.
Proof.
  cbv zeta. rewrite (run_Init_metric m w). cbn [final].
  intros [Hc Ha]%no_init_steps_frame. cbn [wrapper arrays] in Hc, Ha.
  assert (arrays w1 !! fresh (dom (arrays w)) = Some [Desc m (env w)]) as Hold.
  { rewrite Ha. apply lookup_insert_eq. }
  assert (fresh (dom (arrays w1)) ≠ fresh (dom (arrays w))) as Hnew.
  { intros Heq. apply (is_fresh (dom (arrays w1))).
    rewrite Heq. apply elem_of_dom. by rewrite Hold. }
  rewrite run_Describe, Hc. cbn [status descs].
  split_and!; [done | | |].
  - unfold elems.
    rewrite (Init_keeps_arrays (metric m') _ w1) by (by rewrite Hold).
    by rewrite Hold.
  - rewrite run_Init_metric. cbn [final wrapper descs arrays].
    apply elems_fresh_singleton.
  - rewrite run_Init_metric. cbn [final wrapper descs].
    intros [= Heq]. done.
Qed.

Lemma run_Collect_full (id : chan_id) (w : World) :
  ch_closed (chans w id) = false →
  ch_recvq (chans w id) = 0 →
  ch_cap (chans w id) ≤ length (ch_buf (chans w id)) →
  status (run (Collect (chan_ref id)) w) = Blocked.
Proof.
  intros Hclosed Hrecv Hfull. rewrite run_Collect. simpl.
  unfold chansend. rewrite Hclosed, Hrecv.
  by rewrite decide_False by lia.
Qed.

Lemma repeat_call_S (k : nat) (p : @Prog Obj DescPtr unit) :
  repeat_call (S k) p = p ≫= λ _, repeat_call k p.
Proof. reflexivity. Qed.

(** X5. [k] calls of [Collect] in a row on an open channel with no parked
    receiver and room for [k] more values all return: the stored metric is
    appended [k] times to the buffer, nothing else changes, and when the
    buffer is full by then the next call parks. *)
Theorem Collect_fills_buffer (k : nat) (id : chan_id) (w : World) :
  ch_closed (chans w id) = false →
  ch_recvq (chans w id) = 0 →
  length (ch_buf (chans w id)) + k ≤ ch_cap (chans w id) →
  let v := self (wrapper w) in
  let r := run (repeat_call k (Collect (chan_ref id))) w in
  status r = Returned () ∧
  trace r = replicate k (EvSend id v) ∧
  chans (final r) id =
    {| ch_cap := ch_cap (chans w id);
       ch_buf := ch_buf (chans w id) ++ replicate k v;
       ch_closed := false; ch_recvq := 0 |} ∧
  (∀ id', id' ≠ id → chans (final r) id' = chans w id') ∧
  wrapper (final r) = wrapper w ∧ arrays (final r) = arrays w ∧
  env (final r) = env w ∧
  (length (ch_buf (chans w id)) + k = ch_cap (chans w id) →
     status (run (Collect (chan_ref id)) (final r)) = Blocked).
Proof.
  revert w. induction k as [|k IH]; intros w Hclosed Hrecv Hroom v r.
  - subst r. simpl. rewrite app_nil_r.
    split_and!; try done.
    + destruct (chans w id); simpl in *. by subst.
    + intros Hfull. apply run_Collect_full; [done | done | lia].
  - subst r. rewrite repeat_call_S, run_bind, run_Collect. fold v. simpl.
    unfold chansend. rewrite Hclosed, Hrecv.
    rewrite decide_True by lia. simpl.
    set (st := {| ch_cap := ch_cap (chans w id);
                  ch_buf := ch_buf (chans w id) ++ [v];
                  ch_closed := false; ch_recvq := 0 |}).
    assert (chans (set_chan id st w) id = st) as Hst
      by apply fn_lookup_insert.
    destruct (IH (set_chan id st w)) as (Hret & Htr & Hch & Hoth & Hc & Ha & He & Hfull).
    { by rewrite Hst. }
    { by rewrite Hst. }
    { rewrite Hst. simpl. rewrite length_app. simpl. lia. }
    cbn [wrapper set_chan self] in Htr, Hch, Hc.
    rewrite Hst in Hch, Hfull. simpl in Hch, Hfull.
    split_and!.
    + by rewrite Hret.
    + rewrite Htr. done.
    + rewrite Hch. by rewrite <-app_assoc.
    + intros id' Hne. rewrite Hoth by done. simpl.
      by apply fn_lookup_insert_ne.
    + done.
    + done.
    + done.
    + intros Hlen. apply Hfull. rewrite length_app. simpl. lia.
Qed.

(** ** More on concurrent calls *)

(** X6. Among concurrent [Collect] and [Describe] calls, however they
    interleave, a goroutine that has not returned and cannot take a step is a
    [Collect] whose channel does not take the value at present: a [Describe]
    is never held up, and a [Collect] only at its send. *)
Theorem concurrent_calls_stuck_at_send (calls : list Call) (w : World)
    (pool : list Thread) (w' : World) :
  rtc pool_step (spawn <$> calls, w) (pool, w') →
  ∀ i t, pool !! i = Some t →
    finished t = false → thread_step t w' = None →
    ∃ ch, calls !! i = Some (CallCollect ch) ∧ accepts ch w' = false.
Proof.
  intros Hsteps i t Hi Hrunning Hstuck.
  assert (pool_inv (wrapper w) (arrays w) calls (spawn <$> calls, w)) as Hinv.
  { unfold pool_inv. split_and!; [| done | done]. simpl.
    apply Forall2_fmap_r, Forall_Forall2_diag, Forall_forall.
    intros c _. apply call_stage_spawn. }
  destruct (pool_inv_steps _ _ _ _ _ Hinv Hsteps) as (Hall & Hc & _).
  simpl in Hall, Hc.
  destruct (Forall2_lookup_r _ _ _ _ _ Hall Hi) as (c & Hci & Hstage).
  destruct Hstage as [| | ch | ch | id]; simpl in *; try done.
  exists ch. split; [done |].
  destruct ch as [|id]; simpl in *; [done |].
  destruct (chan_accepts (chans w' id)) eqn:Hacc; [| done].
  apply (chan_accepts_send _ (self (wrapper w))) in Hacc as [st Hst].
  by rewrite Hst in Hstuck.
Qed.

(** X7. [Init] is not atomic for concurrent readers.  On a wrapper that
    holds [M], let [Init(M')] take its first step, the store to [c.self], and
    stay there, before its store to [c.descs].  The readers, started only
    then, run to their end: [Collect] sends the new metric [M'] and
    [Describe] returns the old slice, which denotes the descriptor of [M] and
    not that of [M'] when the two differ.  [Init] can then finish. *)
Theorem Init_not_atomic (m m' : Obj) (id : chan_id) (w0 : World) :
  let w := final (run (Init (metric m)) w0) in
  let rest := Th (Init_descs (metric m')) [] in
  Desc m' (env w0) ≠ Desc m (env w0) →
  accepts (chan_ref id) w = true →
  ∃ w1 w2 w3 s,
    thread_step (Th (Init (metric m')) []) w = Some (rest, w1) ∧
    finished rest = false ∧
    rtc pool_step
      ([rest; Th (Collect (chan_ref id)) []; Th Describe []], w1)
      ([rest; Th (Ret ()) [EvSend id (metric m')]; Th (Ret s) []], w2) ∧
    elems (arrays w2) s = [Desc m (env w0)] ∧
    (Desc m' (env w2) ∉ elems (arrays w2) s) ∧
    rtc pool_step
      ([rest; Th (Ret ()) [EvSend id (metric m')]; Th (Ret s) []], w2)
      ([Th (Ret ()) [EvDesc m'; EvAlloc (fresh (dom (arrays w2))) 1];
        Th (Ret ()) [EvSend id (metric m')]; Th (Ret s) []], w3) ∧
    self (wrapper w3) = metric m' ∧
    elems (arrays w3) (descs (wrapper w3)) = [Desc m' (env w0)].
Proof.
  intros w rest Hdiff Hacc.
  set (w1 := set_self (metric m') w).
  destruct (proj1 (chan_accepts_send (chans w1 id) (metric m')) Hacc)
    as [st Hst].
  assert (thread_step (Th (act (ChanSend (chan_ref id) (metric m'))) []) w1 =
            Some (Th (Ret ()) [EvSend id (metric m')], set_chan id st w1))
    as Hsend.
  { cbn [thread_step prog_step act exec]. by rewrite Hst. }
  exists w1, (set_chan id st w1). eexists. exists (descs (wrapper w)).
  split_and!.
  - reflexivity.
  - reflexivity.
  - eapply rtc_l; [eapply (pool_step_thread _ _ 1); reflexivity |].
    eapply rtc_l; [eapply (pool_step_thread _ _ 2); reflexivity |].
    eapply rtc_l;
      [eapply (pool_step_thread _ _ 1); [reflexivity | exact Hsend] |].
    apply rtc_refl.
  - apply elems_fresh_singleton.
  - assert (elems (arrays (set_chan id st w1)) (descs (wrapper w)) =
              [Desc m (env w0)]) as Hel by apply elems_fresh_singleton.
    rewrite Hel. by intros ?%list_elem_of_singleton.
  - eapply rtc_l; [eapply (pool_step_thread _ _ 0); reflexivity |].
    eapply rtc_l; [eapply (pool_step_thread _ _ 0); reflexivity |].
    eapply rtc_l; [eapply (pool_step_thread _ _ 0); reflexivity |].
    apply rtc_refl.
  - reflexivity.
  - apply elems_fresh_singleton.
Qed.

End collector_facts.

(** * The theorems at the concrete instance *)

(** From [ex_ready] to [ex_later]: a [Describe], a [Collect], a step of the
    producers. *)
Lemma ex_ready_later : rtc no_init_step ex_ready ex_later.
Proof.
  eapply rtc_l; [apply step_Describe |].
  eapply rtc_l; [apply (step_Collect (chan_ref 0)) |].
  apply rtc_once, step_around, env_mutate.
Defined.

(** Channel 0 takes the value: [Collect] returns, having sent metric 7. *)
Lemma Collect_after_Init_witness :
  accepts (chan_ref 0) ex_ready = true ∧
  ∃ id st, chan_ref 0 = chan_ref id ∧
    chansend (chans ex_ready id) (metric 7) = SendOk st ∧
    run (Collect (chan_ref 0)) ex_ready =
      mkResult (Returned ()) (set_chan id st ex_ready) [EvSend id (metric 7)].
Proof.
  split; [reflexivity |].
  apply (proj2 (Collect_after_Init 7 (chan_ref 0) ex_world)). reflexivity.
Defined.

(** [Describe] in [ex_ready] and in [ex_later] return the same slice. *)
Lemma Describe_idempotent_witness :
  rtc no_init_step (final (run Describe ex_ready)) ex_later ∧
  ∃ s, status (run Describe ex_ready) = Returned s ∧
       status (run Describe ex_later) = Returned s ∧
       elems (arrays ex_later) s = elems (arrays ex_ready) s.
Proof.
  split; [exact ex_ready_later |].
  apply (Describe_idempotent ex_ready ex_later). exact ex_ready_later.
Defined.

(** In [ex_sent] metric 7 still reports 107, the descriptor [Describe]
    returns. *)
Lemma Collect_within_Describe_witness :
  rtc no_init_step (final (run (Init (metric 7)) ex_world)) ex_sent ∧
  EvSend 0 (metric 7) ∈ trace (run (Collect (chan_ref 0)) ex_sent) ∧
  Desc 7 (env ex_sent) = Desc 7 (env ex_world) ∧
  ∃ s, status (run Describe ex_sent) = Returned s ∧
    elems (arrays ex_sent) s = [107] ∧
    Desc 7 (env ex_sent) ∈ elems (arrays ex_sent) s.
Proof.
  assert (rtc no_init_step (final (run (Init (metric 7)) ex_world)) ex_sent)
    as Hlater.
  { eapply rtc_l; [apply step_Describe |].
    apply rtc_once, (step_Collect (chan_ref 0)). }
  assert (EvSend 0 (metric 7) ∈ trace (run (Collect (chan_ref 0)) ex_sent))
    as Hsent by (vm_compute; left).
  split_and!; [exact Hlater | exact Hsent | reflexivity |].
  destruct (Collect_within_Describe 7 (chan_ref 0) ex_world ex_sent
              Hlater 0 (metric 7) Hsent) as (_ & s & Hs & Hel & Hiff).
  exists s. split_and!; [exact Hs | exact Hel | apply Hiff; reflexivity].
Defined.

(** In [ex_later] metric 7 reports 507: [Collect] sends metric 7, and 507 is
    not among the descriptors [Describe] returns. *)
Lemma Collect_within_Describe_counterexample :
  rtc no_init_step (final (run (Init (metric 7)) ex_world)) ex_later ∧
  EvSend 0 (metric 7) ∈ trace (run (Collect (chan_ref 0)) ex_later) ∧
  ¬ ∃ m' s, metric 7 = metric m' ∧
      status (run Describe ex_later) = Returned s ∧
      Desc m' (env ex_later) ∈ elems (arrays ex_later) s.
Proof.
  split_and!; [exact ex_ready_later | vm_compute; left |].
  intros (m' & s & [= <-] & Hs & Hin).
  vm_compute in Hs. injection Hs as <-.
  vm_compute in Hin. apply list_elem_of_singleton in Hin. discriminate Hin.
Qed.

(** In [ex_later] metric 7 reports 507; [Describe] still returns the slice
    that holds 107. *)
Lemma Init_caches_descs_witness :
  rtc no_init_step (final (run (Init (metric 7)) ex_world)) ex_later ∧
  Desc 7 (env ex_later) = 507 ∧
  run Describe ex_later = mkResult (Returned (slice 1 1 1)) ex_later [] ∧
  elems (arrays ex_later) (slice 1 1 1) = [107].
Proof.
  split_and!; [exact ex_ready_later | reflexivity | |].
  - apply (Init_caches_descs 7 ex_world ex_later ex_ready_later).
  - apply (Init_caches_descs 7 ex_world ex_later ex_ready_later).
Defined.

(** In [ex_ready] the send of metric 7 on channel 0 ends the call. *)
Lemma Collect_returns_witness :
  accepts (chan_ref 0) ex_ready = true ∧
  (∃ id st, chan_ref 0 = chan_ref id ∧
     thread_step (Th (act (ChanSend (chan_ref 0) (metric 7))) []) ex_ready =
       Some (Th (Ret ()) [EvSend id (metric 7)], set_chan id st ex_ready)) ∧
  (∃ id, chan_ref 0 = chan_ref id ∧
     status (run (Collect (chan_ref 0)) ex_ready) = Returned () ∧
     trace (run (Collect (chan_ref 0)) ex_ready) = [EvSend id (metric 7)]).
Proof.
  split_and!; [reflexivity | |].
  - apply (proj1 (proj2 (Collect_returns (chan_ref 0) ex_ready)) ex_ready).
    reflexivity.
  - apply (proj2 (proj2 (Collect_returns (chan_ref 0) ex_ready))).
    reflexivity.
Defined.

(** In [ex_world], without [Init]: the nil slice, and the nil interface sent
    on channel 0. *)
Lemma zero_value_calls_witness :
  wrapper ex_world = zero_SelfCollector ∧
  accepts (chan_ref 0) ex_world = true ∧
  run Describe ex_world = mkResult (Returned nil_slice) ex_world [] ∧
  ∃ id st, chan_ref 0 = chan_ref id ∧
    run (Collect (chan_ref 0)) ex_world =
      mkResult (Returned ()) (set_chan id st ex_world) [EvSend id nil_metric].
Proof.
  split_and!; [reflexivity | reflexivity | |].
  - apply (zero_value_calls (chan_ref 0) ex_world eq_refl).
  - apply (zero_value_calls (chan_ref 0) ex_world eq_refl). reflexivity.
Defined.



(** ** The further properties at the concrete instance *)

(** After [Init] with metric 8 in [ex_later], the slice returned before
    still holds 107 and the stored one holds 508. *)
Lemma Init_again_keeps_old_slice_witness :
  rtc no_init_step (final (run (Init (metric 7)) ex_world)) ex_later ∧
  let s := descs (wrapper ex_later) in
  let w2 := final (run (Init (metric 8)) ex_later) in
  status (run Describe ex_later) = Returned s ∧
  elems (arrays w2) s = [107] ∧
  elems (arrays w2) (descs (wrapper w2)) = [508] ∧
  descs (wrapper w2) ≠ s.
Proof.
  split; [exact ex_ready_later |].
  exact (Init_again_keeps_old_slice 7 8 ex_world ex_later ex_ready_later).
Defined.

(** Channel 0 of [ex_ready] takes the value; the nil channel never does. *)
Lemma Collect_all_or_nothing_witness :
  accepts (chan_ref 0) ex_ready = true ∧
  accepts nil_chan ex_ready = false ∧
  (∃ id, chan_ref 0 = chan_ref id ∧
     trace (run (Collect (chan_ref 0)) ex_ready) = [EvSend id (metric 7)]) ∧
  final (run (Collect nil_chan) ex_ready) = ex_ready ∧
  trace (run (Collect nil_chan) ex_ready) = [].
Proof.
  split_and!; [reflexivity | reflexivity | | |].
  - apply (proj1 (proj2 (Collect_all_or_nothing (chan_ref 0) ex_ready))).
    reflexivity.
  - apply (proj2 (proj2 (Collect_all_or_nothing nil_chan ex_ready))).
    reflexivity.
  - apply (proj2 (proj2 (Collect_all_or_nothing nil_chan ex_ready))).
    reflexivity.
Defined.

(** Two calls fill channel 0 of [ex_ready]; a third parks. *)
Lemma Collect_fills_buffer_witness :
  ch_closed (chans ex_ready 0) = false ∧
  ch_recvq (chans ex_ready 0) = 0 ∧
  length (ch_buf (chans ex_ready 0)) + 2 ≤ ch_cap (chans ex_ready 0) ∧
  length (ch_buf (chans ex_ready 0)) + 2 = ch_cap (chans ex_ready 0) ∧
  let r := run (repeat_call 2 (Collect (chan_ref 0))) ex_ready in
  status r = Returned () ∧
  trace r = [EvSend 0 (metric 7); EvSend 0 (metric 7)] ∧
  status (run (Collect (chan_ref 0)) (final r)) = Blocked.
Proof.
  assert (length (ch_buf (chans ex_ready 0)) + 2 ≤ ch_cap (chans ex_ready 0))
    as Hroom by (vm_compute; lia).
  pose proof (Collect_fills_buffer 2 0 ex_ready eq_refl eq_refl Hroom)
    as (Hret & Htrace & _ & _ & _ & _ & _ & Hfull).
  split_and!; [reflexivity | reflexivity | exact Hroom | reflexivity |].
  intros r. split_and!; [exact Hret | exact Htrace | exact (Hfull eq_refl)].
Defined.

(** An interleaving of the three [Collect]s that fills channel 0. *)
Lemma ex_filling :
  rtc pool_step (spawn <$> ex_collects, ex_ready) (ex_full_pool, ex_done_world).
Proof.
  eapply rtc_l; [eapply (pool_step_thread _ _ 0); reflexivity |].
  eapply rtc_l; [eapply (pool_step_thread _ _ 1); reflexivity |].
  eapply rtc_l; [eapply (pool_step_thread _ _ 2); reflexivity |].
  eapply rtc_l; [eapply (pool_step_thread _ _ 1); reflexivity |].
  eapply rtc_l; [eapply (pool_step_thread _ _ 0); reflexivity |].
  apply rtc_refl.
Defined.

(** The third [Collect] is held up, and channel 0 is full. *)
Lemma concurrent_calls_stuck_at_send_witness :
  rtc pool_step (spawn <$> ex_collects, ex_ready) (ex_full_pool, ex_done_world) ∧
  ex_full_pool !! 2 = Some (Th (act (ChanSend (chan_ref 0) (metric 7))) []) ∧
  thread_step (Th (act (ChanSend (chan_ref 0) (metric 7))) []) ex_done_world = None ∧
  ∃ ch, ex_collects !! 2 = Some (CallCollect ch) ∧ accepts ch ex_done_world = false.
Proof.
  split_and!; [exact ex_filling | reflexivity | reflexivity |].
  exact (concurrent_calls_stuck_at_send ex_collects ex_ready ex_full_pool
           ex_done_world ex_filling 2 _ eq_refl eq_refl eq_refl).
Defined.

(** On the wrapper that holds metric 7, with [Init] for metric 8 between its
    two stores: [Collect] sends metric 8 and [Describe] returns the slice
    that holds 107. *)
Lemma Init_not_atomic_witness :
  Desc 8 (env ex_world) ≠ Desc 7 (env ex_world) ∧
  accepts (chan_ref 0) ex_ready = true ∧
  ∃ w1 w2 s,
    thread_step (Th (Init (metric 8)) []) ex_ready =
      Some (Th (Init_descs (metric 8)) [], w1) ∧
    rtc pool_step
      ([Th (Init_descs (metric 8)) []; Th (Collect (chan_ref 0)) [];
        Th Describe []], w1)
      ([Th (Init_descs (metric 8)) []; Th (Ret ()) [EvSend 0 (metric 8)];
        Th (Ret s) []], w2) ∧
    elems (arrays w2) s = [107] ∧
    (Desc 8 (env w2) ∉ elems (arrays w2) s).
Proof.
  assert (Desc 8 (env ex_world) ≠ Desc 7 (env ex_world)) as Hdiff
    by (vm_compute; discriminate).
  destruct (Init_not_atomic 7 8 0 ex_world Hdiff eq_refl)
    as (w1 & w2 & w3 & s & Hstore & _ & Hreaders & Hold & Hnot & _).
  split_and!; [exact Hdiff | reflexivity |].
  exists w1, w2, s.
  split_and!; [exact Hstore | exact Hreaders | exact Hold | exact Hnot].
Defined.
